(** * vue-unity-webGL: the declared contract of [packages/lib/src/types.ts]

    The source file consists of TypeScript declarations only.  They are
    embedded here as data: a small language of TypeScript types ([ty]),
    a universe of JavaScript values ([jsval]) and the assignability
    check between them ([has_type]).  Each declaration of the source is
    then transcribed member by member, in source order ([Types]).

    The manager that drives an instance through its life has no code in
    the source; [Lifecycle] models it from the specification, and says
    so at each definition. *)

From Stdlib Require Import String List Bool Lia PeanoNat.
From Stdlib Require Import ZArith SpecFloat.
Import ListNotations.
Set Warnings "-register-all".
Open Scope string_scope.
Open Scope list_scope.

(** ** JavaScript values and TypeScript types *)

Module TS.

(** A JavaScript [number] is an IEEE 754 double. *)
Definition number := spec_float.

Definition num_zero : number := S754_zero false.
Definition num_one : number := S754_finite false 4503599627370496 (-52).

(** Runtime values.  A DOM element is a host object known by its tag
    name and an identity.  A function is known by the number of
    parameters it requires; it puts no demand on what they are and
    none on what it returns (its parameters and its result are of type
    [any]). *)
Inductive jsval : Type :=
| VUndefined
| VNull
| VBool (b : bool)
| VNum (x : number)
| VStr (s : string)
| VElement (tag : string) (id : nat)
| VFun (arity : nat)
| VObj (props : list (string * jsval)).

(** A member of an object type or of a class: its name, the
    [readonly] modifier, the [?] marker, its type and the text of the
    [@default] tag of its doc comment, when it has one. *)
Record member (T : Type) : Type := Member {
  mname : string;
  mreadonly : bool;
  moptional : bool;
  mtype : T;
  mdefault : option string
}.
Arguments Member {T}.
Arguments mname {T}.
Arguments mreadonly {T}.
Arguments moptional {T}.
Arguments mtype {T}.
Arguments mdefault {T}.

(** A parameter of a function type. *)
Record param (T : Type) : Type := Param {
  pname : string;
  poptional : bool;
  ptype : T
}.
Arguments Param {T}.
Arguments pname {T}.
Arguments poptional {T}.
Arguments ptype {T}.

Inductive ty : Type :=
| TString
| TNumber
| TBoolean
| TUndefined
| TVoid
| TNumLit (n : number)
| TStrLit (s : string)
| THTMLCanvasElement
| TUnion (ts : list ty)
| TObject (ms : list (member ty))
| TFun (ps : list (param ty)) (ret : ty)
| TPromise (t : ty).

(** Property read [o.k]: a missing property reads as [undefined]. *)
Fixpoint lookup (k : string) (props : list (string * jsval)) : option jsval :=
  match props with
  | [] => None
  | (k', v) :: rest => if String.eqb k k' then Some v else lookup k rest
  end.

Definition get (v : jsval) (k : string) : jsval :=
  match v with
  | VObj props =>
      match lookup k props with
      | Some x => x
      | None => VUndefined
      end
  | _ => VUndefined
  end.

Definition is_undefined (v : jsval) : bool :=
  match v with
  | VUndefined => true
  | _ => false
  end.

Definition nonempty_string (v : jsval) : bool :=
  match v with
  | VStr s => negb (String.eqb s "")
  | _ => false
  end.

(** Assignability of a value to a type (strict null checks).  An
    object may carry more properties than the type names; an optional
    member may be missing or [undefined].  A function is assignable to a
    function type when it requires no more parameters than the type
    supplies.  The universe has no promise.  The check of weak types (an
    object that shares no property with a type whose members are all
    optional) is not made: for such a type [has_type] is a necessary
    condition only. *)
Fixpoint has_type (t : ty) (v : jsval) {struct t} : bool :=
  match t with
  | TString => match v with VStr _ => true | _ => false end
  | TNumber => match v with VNum _ => true | _ => false end
  | TBoolean => match v with VBool _ => true | _ => false end
  | TUndefined => is_undefined v
  | TVoid => is_undefined v
  | TNumLit n => match v with VNum x => SFeqb x n | _ => false end
  | TStrLit s => match v with VStr x => String.eqb x s | _ => false end
  | THTMLCanvasElement =>
      match v with
      | VElement tag _ => String.eqb tag "canvas"
      | _ => false
      end
  | TUnion ts =>
      (fix any (l : list ty) : bool :=
         match l with
         | [] => false
         | t' :: l' => has_type t' v || any l'
         end) ts
  | TObject ms =>
      match v with
      | VObj _ =>
          (fix all (l : list (member ty)) : bool :=
             match l with
             | [] => true
             | Member k _ opt t' _ :: l' =>
                 ((opt && is_undefined (get v k)) || has_type t' (get v k))
                 && all l'
             end) ms
      | _ => false
      end
  | TFun ps _ => match v with VFun n => Nat.leb n (length ps) | _ => false end
  | TPromise _ => false
  end.

(** Whether a call with the arguments [args] is accepted by a
    parameter list: an optional parameter may be left out or be
    [undefined]; surplus arguments are an error. *)
Fixpoint accepts (ps : list (param ty)) (args : list jsval) : bool :=
  match ps, args with
  | [], [] => true
  | [], _ :: _ => false
  | p :: ps', [] => poptional p && accepts ps' []
  | p :: ps', a :: args' =>
      ((poptional p && is_undefined a) || has_type (ptype p) a)
      && accepts ps' args'
  end.

(** Member lookup in a declaration. *)
Fixpoint find_member (k : string) (ms : list (member ty)) : option (member ty) :=
  match ms with
  | [] => None
  | m :: rest => if String.eqb k (mname m) then Some m else find_member k rest
  end.

Definition names (ms : list (member ty)) : list string := map mname ms.

Definition member_type (k : string) (ms : list (member ty)) : option ty :=
  option_map mtype (find_member k ms).

Definition fun_params (t : ty) : list (param ty) :=
  match t with
  | TFun ps _ => ps
  | _ => []
  end.

Definition fun_return (t : ty) : option ty :=
  match t with
  | TFun _ ret => Some ret
  | _ => None
  end.

(** [Pick<T, K>]: the members of [T] whose name is in [K], modifiers
    kept as they are. *)
Definition Pick (ms : list (member ty)) (keys : list string) : list (member ty) :=
  filter (fun m => existsb (String.eqb (mname m)) keys) ms.

(** [A & B] on object types with disjoint member names. *)
Definition intersect (a b : list (member ty)) : list (member ty) := a ++ b.

(** The type a read of member [k] has: [T | undefined] when the member
    is optional. *)
Definition read_type (ms : list (member ty)) (k : string) : option ty :=
  match find_member k ms with
  | Some m => Some (if moptional m then TUnion [mtype m; TUndefined] else mtype m)
  | None => None
  end.

(** Property write [o.k = v]. *)
Fixpoint update (k : string) (v : jsval) (props : list (string * jsval))
  : list (string * jsval) :=
  match props with
  | [] => [(k, v)]
  | (k', v') :: rest =>
      if String.eqb k k' then (k, v) :: rest else (k', v') :: update k v rest
  end.

(** The assignment [o.k = v] as the type checker treats it for an
    object [o] of declared type [ms]: rejected when [k] is not a
    member, when the member is [readonly], or when [v] is not
    assignable to the member's type. *)
Definition assign (ms : list (member ty)) (o : list (string * jsval))
           (k : string) (v : jsval) : option (list (string * jsval)) :=
  match find_member k ms with
  | None => None
  | Some m =>
      if mreadonly m then None
      else if (moptional m && is_undefined v) || has_type (mtype m) v
           then Some (update k v o)
           else None
  end.

End TS.

(** ** The declarations of [types.ts] *)

Module Types.
Import TS.

(** [export type CanvasElement = HTMLCanvasElement | string] *)
Definition CanvasElement : ty := TUnion [THTMLCanvasElement; TString].

(** [export type IWebGLContextAttributes = { ... }], members in source
    order.  The [@default "default"] tag of [powerPreference] is kept
    without its quotation marks. *)
Definition IWebGLContextAttributes : list (member ty) :=
  [ Member "alpha" true true TBoolean (Some "true");
    Member "antialias" true true TBoolean (Some "true");
    Member "depth" true true TBoolean (Some "true");
    Member "failIfMajorPerformanceCaveat" true true TBoolean (Some "false");
    Member "powerPreference" true true
      (TUnion [TStrLit "default"; TStrLit "high-performance"; TStrLit "low-power"])
      (Some "default");
    Member "premultipliedAlpha" true true TBoolean (Some "true");
    Member "preserveDrawingBuffer" true true TBoolean (Some "false");
    Member "stencil" true true TBoolean (Some "false");
    Member "desynchronized" true true TBoolean (Some "false");
    Member "xrCompatible" true true TBoolean (Some "false") ].

(** [export interface IUnityArguments { ... }], members in source
    order.  [print] and [printError] are the only members declared
    without [readonly]. *)
Definition IUnityArguments : list (member ty) :=
  [ Member "dataUrl" true false TString None;
    Member "frameworkUrl" true false TString None;
    Member "codeUrl" true false TString None;
    Member "streamingAssetsUrl" true true TString None;
    Member "memoryUrl" true true TString None;
    Member "symbolsUrl" true true TString None;
    Member "companyName" true true TString None;
    Member "productName" true true TString None;
    Member "productVersion" true true TString None;
    Member "devicePixelRatio" true true TNumber None;
    Member "matchWebGLToCanvasSize" true true TBoolean None;
    Member "webglContextAttributes" true true (TObject IWebGLContextAttributes) None;
    Member "print" false true (TFun [Param "message" false TString] TVoid) None;
    Member "printError" false true (TFun [Param "message" false TString] TVoid) None ].

(** [export type IUnityConfig = Pick<IUnityArguments, ...> & { readonly loaderUrl: string }] *)
Definition IUnityConfig : list (member ty) :=
  intersect
    (Pick IUnityArguments
       [ "dataUrl"; "frameworkUrl"; "codeUrl"; "streamingAssetsUrl";
         "memoryUrl"; "symbolsUrl"; "companyName"; "productName";
         "productVersion"; "devicePixelRatio"; "matchWebGLToCanvasSize";
         "webglContextAttributes" ])
    [ Member "loaderUrl" true false TString None ].

(** [export declare class UnityInstance { ... }]: the construct
    signature and the public instance members, in source order. *)
Record class_decl : Type := Class {
  ctor : list (param ty);
  members : list (member ty)
}.

Definition SendMessage_params : list (param ty) :=
  [ Param "objectName" false TString;
    Param "methodName" false TString;
    Param "parameter" true (TUnion [TString; TNumber; TBoolean]) ].

Definition SendMessage : ty := TFun SendMessage_params TVoid.

(** The values of the union [string | number | boolean] of [parameter],
    as a closed variant. *)
Inductive primitive : Type :=
| PString (s : string)
| PNumber (x : number)
| PBoolean (b : bool).

Definition val_of_primitive (p : primitive) : jsval :=
  match p with
  | PString s => VStr s
  | PNumber x => VNum x
  | PBoolean b => VBool b
  end.

Definition SetFullscreen_params : list (param ty) :=
  [ Param "fullScreen" false (TUnion [TNumLit num_zero; TNumLit num_one]) ].

Definition SetFullscreen : ty := TFun SetFullscreen_params TVoid.

(** The two values of the union [0 | 1] of [fullScreen], read as a
    toggle: 0 is off, 1 is on. *)
Definition toggle_of_bool (enabled : bool) : jsval :=
  VNum (if enabled then num_one else num_zero).

Definition bool_of_toggle (v : jsval) : option bool :=
  match v with
  | VNum x =>
      if SFeqb x num_zero then Some false
      else if SFeqb x num_one then Some true
      else None
  | _ => None
  end.

Definition Quit : ty := TFun [] (TPromise TVoid).

(** The type of the member [Module]: [{ canvas?: HTMLCanvasElement }]. *)
Definition Module_members : list (member ty) :=
  [ Member "canvas" false true THTMLCanvasElement None ].

Definition UnityInstance : class_decl :=
  {| ctor := [];
     members :=
       [ Member "SendMessage" false false SendMessage None;
         Member "SetFullscreen" false false SetFullscreen None;
         Member "Quit" false false Quit None;
         Member "Module" false false (TObject Module_members) None ] |}.

End Types.

(** ** The lifecycle of an instance *)

Module Lifecycle.
Import TS Types.

(** Modelled from the spec: the Instance Lifecycle Manager of section 4.1,
    which [types.ts] does not contain (the source declares only the class
    [UnityInstance] the manager drives).  The six lifecycle states. *)
Inductive state : Type :=
| Idle
| Loading
| Running
| Quitting
| Terminated
| Failed.

(** Modelled from the spec: the error kinds of section 7, which have no
    declaration in [types.ts], and the "synchronous validation error"
    section 9 mandates for a message the manager does not accept, to
    which the spec gives no name of its own. *)
Inductive error : Type :=
| InvalidConfigurationError
| AlreadyBoundError
| BootstrapError
| NotRunningError
| TeardownError
| ValidationError.

(** Modelled from the spec: what a call on the manager returns to its
    caller at once, a value or one of the errors. *)
Inductive outcome (A : Type) : Type :=
| Ok (a : A)
| Err (e : error).
Arguments Ok {A}.
Arguments Err {A}.

(** The argument list handed to the declared [SendMessage]: an absent
    parameter is left out of the call. *)
Definition send_args (objectName methodName : string) (parameter : option primitive)
  : list jsval :=
  VStr objectName :: VStr methodName ::
  match parameter with
  | Some p => [val_of_primitive p]
  | None => []
  end.

(** Modelled from the spec: a call the manager makes on the opaque
    instance, one constructor per method of the declared class, and the
    call that creates the instance, which hands the configuration and
    the target surface to the bootstrap mechanism of section 6. *)
Inductive call : Type :=
| CallSendMessage (args : list jsval)
| CallSetFullscreen (args : list jsval)
| CallQuit
| CallCreate (configuration : jsval) (target : nat).

(** Modelled from the spec: a completion signal ("a single
    pending-completion slot per transition", section 9) is pending until
    it settles, once. *)
Inductive completion : Type :=
| Pending
| Resolved
| Rejected (e : error).

(** Modelled from the spec: the state the manager of section 4.1 keeps,
    absent from [types.ts]: the lifecycle state, the surface bound to the
    instance, the calls relayed to the instance (oldest first), the
    number of surface detachments performed, the completion signals
    handed out (a signal is its index) and the signal of the teardown in
    progress, if any. *)
Record manager : Type := Manager {
  lifecycle : state;
  surface : option nat;
  relayed : list call;
  detachments : nat;
  signals : list completion;
  quit_signal : option nat
}.

(** Modelled from the spec: handing a call to the instance changes
    nothing but the record of relayed calls. *)
Definition relay (c : call) (m : manager) : manager :=
  {| lifecycle := lifecycle m;
     surface := surface m;
     relayed := relayed m ++ [c];
     detachments := detachments m;
     signals := signals m;
     quit_signal := quit_signal m |}.

(** Modelled from the spec: [sendMessage] of section 4.1, "valid only
    from Running; fails with NotRunningError in any other state";
    "objectName and methodName must be non-empty"; the parameter is the
    closed variant.  In [Running] a message with non-empty names is
    relayed to the instance and nothing is returned; one with an empty
    name is refused at once and nothing is relayed. *)
Definition sendMessage (m : manager) (objectName methodName : string)
           (parameter : option primitive) : manager * outcome unit :=
  match lifecycle m with
  | Running =>
      if nonempty_string (VStr objectName) && nonempty_string (VStr methodName)
      then (relay (CallSendMessage (send_args objectName methodName parameter)) m, Ok tt)
      else (m, Err ValidationError)
  | _ => (m, Err NotRunningError)
  end.

(** Modelled from the spec: a manager in its initial state, [Idle]:
    no instance, no surface, nothing relayed. *)
Definition initial : manager :=
  {| lifecycle := Idle;
     surface := None;
     relayed := [];
     detachments := 0;
     signals := [];
     quit_signal := None |}.

(** The locators a configuration must hold: the members of the declared
    [IUnityConfig] that are not optional. *)
Definition required_members : list string :=
  map mname (filter (fun m => negb (moptional m)) IUnityConfig).

(** Modelled from the spec: [create] of section 4.1, which [types.ts]
    does not contain.  It is valid only from [Idle], the state every
    manager starts in and none returns to, so it is taken on the initial
    manager.  It checks first that every required locator of the
    configuration is a non-empty string ([InvalidConfigurationError]
    otherwise, sections 7 and 8), then that the target surface is not
    among the surfaces [bound] to a live instance ([AlreadyBoundError]);
    a refused creation leaves the manager [Idle].  Otherwise the
    manager is [Loading] with the surface bound, the configuration has
    been handed over as it is, and a pending completion signal is
    returned.  The bootstrap that settles it is not modelled. *)
Definition create (bound : list nat) (configuration : jsval) (target : nat)
  : manager * outcome nat :=
  if negb (forallb (fun k => nonempty_string (get configuration k)) required_members)
  then (initial, Err InvalidConfigurationError)
  else if existsb (Nat.eqb target) bound
  then (initial, Err AlreadyBoundError)
  else ({| lifecycle := Loading;
           surface := Some target;
           relayed := [CallCreate configuration target];
           detachments := 0;
           signals := [Pending];
           quit_signal := None |}, Ok 0).

(** Modelled from the spec: [setFullscreen] of section 4.1, "valid only
    from Running; no-op error otherwise"; the error is [NotRunningError]
    (section 8, last scenario). *)
Definition setFullscreen (m : manager) (enabled : bool) : manager * outcome unit :=
  match lifecycle m with
  | Running => (relay (CallSetFullscreen [toggle_of_bool enabled]) m, Ok tt)
  | _ => (m, Err NotRunningError)
  end.

(** Modelled from the spec: [quit] of section 4.1.  From [Running] or
    [Loading] it moves to [Quitting] at once, asks the instance to quit
    and hands out a fresh completion signal; in [Quitting] or
    [Terminated] it hands out the signal of the first call again and does
    nothing else.  The spec gives quit no behaviour in [Idle] and
    [Failed] beyond its not being valid there; it is rejected. *)
Definition quit (m : manager) : manager * outcome nat :=
  match lifecycle m with
  | Running | Loading =>
      let s := length (signals m) in
      ({| lifecycle := Quitting;
          surface := surface m;
          relayed := relayed m ++ [CallQuit];
          detachments := detachments m;
          signals := signals m ++ [Pending];
          quit_signal := Some s |}, Ok s)
  | Quitting | Terminated =>
      match quit_signal m with
      | Some s => (m, Ok s)
      | None => (m, Err NotRunningError)
      end
  | Idle | Failed => (m, Err NotRunningError)
  end.

(** Modelled from the spec: settling signal [s]; a signal that has
    settled keeps its result. *)
Fixpoint settle (s : nat) (c : completion) (l : list completion) : list completion :=
  match l, s with
  | [], _ => []
  | Pending :: rest, O => c :: rest
  | x :: rest, O => x :: rest
  | x :: rest, S s' => x :: settle s' c rest
  end.

(** Modelled from the spec: the instance confirming its release (section
    4.1, "then to Terminated once the instance confirms release"), with
    or without a failure of the release sequence.  The surface is
    detached before the signal settles, and a failure still ends in
    [Terminated] (section 7, [TeardownError]).  Outside [Quitting] the
    confirmation has nothing to act on. *)
Definition release_confirmed (failed : bool) (m : manager) : manager :=
  match lifecycle m with
  | Quitting =>
      {| lifecycle := Terminated;
         surface := None;
         relayed := relayed m;
         detachments := S (detachments m);
         signals :=
           match quit_signal m with
           | Some s =>
               settle s (if failed then Rejected TeardownError else Resolved) (signals m)
           | None => signals m
           end;
         quit_signal := quit_signal m |}
  | _ => m
  end.

(** Modelled from the spec: what the caller of [quit] observes through
    its signal. *)
Definition await (m : manager) (s : nat) : option completion :=
  nth_error (signals m) s.

(** Modelled from the spec: what can happen to a manager, one at a
    time (section 5: all operations are serialized). *)
Inductive event : Type :=
| EvSendMessage (objectName methodName : string) (parameter : option primitive)
| EvSetFullscreen (enabled : bool)
| EvQuit
| EvReleased (failed : bool).

Definition step (m : manager) (e : event) : manager :=
  match e with
  | EvSendMessage o me p => fst (sendMessage m o me p)
  | EvSetFullscreen b => fst (setFullscreen m b)
  | EvQuit => fst (quit m)
  | EvReleased failed => release_confirmed failed m
  end.

Definition run (m : manager) (es : list event) : manager := fold_left step es m.

End Lifecycle.

(** ** Statements and sample values used below *)

Import TS Types Lifecycle.

(** A declared object type is write-once when the type checker rejects
    every assignment to every property of an object of that type. *)
Definition write_once (ms : list (member ty)) : Prop :=
  forall (o : list (string * jsval)) (k : string) (v : jsval), assign ms o k v = None.

(** The locators of the configuration, by the names the source gives
    them. *)
Definition required_locators : list string :=
  ["loaderUrl"; "dataUrl"; "frameworkUrl"; "codeUrl"].

Definition optional_locators : list string :=
  ["streamingAssetsUrl"; "memoryUrl"; "symbolsUrl"].



(** The type of an instance of the class: an object with the public
    members. *)
Definition UnityInstance_type : ty := TObject (members UnityInstance).

(** An instance that has not been given a canvas yet, and one that has. *)
Definition instance_without_canvas : jsval :=
  VObj [ ("SendMessage", VFun 3); ("SetFullscreen", VFun 1); ("Quit", VFun 0);
         ("Module", VObj []) ].

Definition instance_with_canvas : jsval :=
  VObj [ ("SendMessage", VFun 3); ("SetFullscreen", VFun 1); ("Quit", VFun 0);
         ("Module", VObj [("canvas", VElement "canvas" 7)]) ].

(** A configuration with the four required locators only, and one whose
    required locators are all the empty string, which the types admit
    and [create] refuses. *)
Definition minimal_config : jsval :=
  VObj [ ("loaderUrl", VStr "Build/unity.loader.js");
         ("dataUrl", VStr "Build/unity.data");
         ("frameworkUrl", VStr "Build/unity.framework.js");
         ("codeUrl", VStr "Build/unity.wasm") ].

Definition empty_locators_config : jsval :=
  VObj [ ("loaderUrl", VStr ""); ("dataUrl", VStr "");
         ("frameworkUrl", VStr ""); ("codeUrl", VStr "") ].

(** The number 3 as a double. *)
Definition num_three : number := S754_finite false 6755399441055744 (-51).

(** A manager whose instance is up, with surface 0 bound. *)
Definition running_manager : manager :=
  {| lifecycle := Running;
     surface := Some 0;
     relayed := [];
     detachments := 0;
     signals := [];
     quit_signal := None |}.

Definition idle_manager : manager :=
  {| lifecycle := Idle;
     surface := None;
     relayed := [];
     detachments := 0;
     signals := [];
     quit_signal := None |}.

Definition is_release (e : event) : bool :=
  match e with
  | EvReleased _ => true
  | _ => false
  end.

Definition member_ok (v : jsval) (m : member ty) : bool :=
  (moptional m && is_undefined (get v (mname m))) || has_type (mtype m) (get v (mname m)).

Definition is_object (v : jsval) : bool :=
  match v with
  | VObj _ => true
  | _ => false
  end.

(** Where a manager stands once [quit] has been accepted with signal
    [s] at [d] detachments: still [Quitting] with the signal pending and
    nothing detached, or, once the release was confirmed, [Terminated]
    with the signal settled and the surface detached once. *)
Definition teardown_inv (d s : nat) (released : bool) (m : manager) : Prop :=
  quit_signal m = Some s
  /\ if released
     then lifecycle m = Terminated /\ detachments m = S d /\ surface m = None
          /\ (await m s = Some Resolved \/ await m s = Some (Rejected TeardownError))
     else lifecycle m = Quitting /\ detachments m = d /\ await m s = Some Pending.

(** What a diagnostic sink slot may hold: nothing, or a function that
    requires at most the one argument a sink is called with. *)
Definition sink_value (v : jsval) : bool :=
  match v with
  | VUndefined => true
  | VFun n => Nat.leb n 1
  | _ => false
  end.

(** The metadata members of the configuration. *)
Definition metadata_members : list string :=
  ["companyName"; "productName"; "productVersion"].

(** ** Facts about assignability *)

Lemma has_type_union (ts : list ty) (v : jsval) :
  has_type (TUnion ts) v = existsb (fun t => has_type t v) ts.
Proof.
  induction ts as [|t ts IH]; [reflexivity|].
  cbn [existsb]. rewrite <- IH. reflexivity.
Qed.

Lemma has_type_object (ms : list (member ty)) (v : jsval) :
  has_type (TObject ms) v = is_object v && forallb (member_ok v) ms.
Proof.
  destruct v; try reflexivity.
  induction ms as [|[k ro opt t d] ms IH]; [reflexivity|].
  cbn [forallb is_object andb] in *. rewrite <- IH. reflexivity.
Qed.

Lemma has_type_object_member (ms : list (member ty)) (v : jsval) (m : member ty) :
  has_type (TObject ms) v = true -> In m ms -> member_ok v m = true.
Proof.
  rewrite has_type_object. intros H Hin.
  apply andb_true_iff in H. destruct H as [_ H].
  rewrite forallb_forall in H. now apply H.
Qed.

Lemma find_member_In (k : string) (ms : list (member ty)) (m : member ty) :
  find_member k ms = Some m -> In m ms /\ mname m = k.
Proof.
  induction ms as [|m' ms IH]; cbn [find_member]; [discriminate|].
  destruct (String.eqb k (mname m')) eqn:E.
  - intros [= <-]. apply String.eqb_eq in E. split; [now left | now symmetry].
  - intros H. destruct (IH H) as [Hin Hn]. split; [now right | exact Hn].
Qed.

Lemma find_member_names (k : string) (ms : list (member ty)) :
  find_member k ms <> None <-> In k (names ms).
Proof.
  induction ms as [|m ms IH]; cbn [find_member names map].
  - split; [congruence | intros []].
  - destruct (String.eqb k (mname m)) eqn:E.
    + apply String.eqb_eq in E. split; [intros _; now left | discriminate].
    + apply String.eqb_neq in E. rewrite IH. unfold names.
      split; [now right | intros [H|H]; [congruence | exact H]].
Qed.

(** A string-typed value is a string. *)
Lemma has_type_string (v : jsval) :
  has_type TString v = true -> exists s, v = VStr s.
Proof. destruct v; try discriminate. intros _. now exists s. Qed.

Lemma has_type_canvas (v : jsval) :
  has_type THTMLCanvasElement v = true <-> exists id, v = VElement "canvas" id.
Proof.
  split.
  - destruct v; try discriminate. cbn. intros H.
    apply String.eqb_eq in H. subst. now exists id.
  - intros [id ->]. reflexivity.
Qed.

Lemma lookup_update_same (k : string) (v : jsval) (o : list (string * jsval)) :
  lookup k (update k v o) = Some v.
Proof.
  induction o as [|[k' v'] o IH]; cbn.
  - now rewrite String.eqb_refl.
  - destruct (String.eqb k k') eqn:E; cbn.
    + now rewrite String.eqb_refl.
    + now rewrite E.
Qed.

Lemma lookup_update_other (k k' : string) (v : jsval) (o : list (string * jsval)) :
  k' <> k -> lookup k' (update k v o) = lookup k' o.
Proof.
  intros Hne. induction o as [|[k0 v0] o IH]; cbn.
  - apply String.eqb_neq in Hne. now rewrite Hne.
  - destruct (String.eqb k k0) eqn:E; cbn.
    + apply String.eqb_eq in E. subst k0.
      apply String.eqb_neq in Hne. now rewrite Hne.
    + now rewrite IH.
Qed.

(** ** The drawable surface reference *)

(** C9: a value is assignable to [CanvasElement] exactly when it is a
    canvas element handle or a string locator, and no value is both. *)
Theorem CanvasElement_two_shapes (v : jsval) :
  (has_type CanvasElement v = true <->
   (exists id, v = VElement "canvas" id) \/ (exists s, v = VStr s))
  /\ ~ ((exists id, v = VElement "canvas" id) /\ (exists s, v = VStr s)).
Proof.
  split.
  - unfold CanvasElement. rewrite has_type_union. cbn [existsb].
    rewrite orb_false_r, orb_true_iff, has_type_canvas. split.
    + intros [H|H]; [now left | right; now apply has_type_string].
    + intros [H|[s ->]]; [now left | now right].
  - intros [[id ->] [s Hs]]. discriminate Hs.
Qed.

Lemma CanvasElement_two_shapes_witness :
  has_type CanvasElement (VStr "#unity-canvas") = true
  /\ ((exists id, VStr "#unity-canvas" = VElement "canvas" id)
      \/ (exists s, VStr "#unity-canvas" = VStr s)).
Proof.
  split; [reflexivity|].
  apply (proj1 (proj1 (CanvasElement_two_shapes (VStr "#unity-canvas")))).
  reflexivity.
Defined.

(** ** The instance *)

Lemma read_type_not_member (k : string) (ms : list (member ty)) :
  ~ In k (names ms) -> read_type ms k = None.
Proof.
  intros H. unfold read_type.
  destruct (find_member k ms) eqn:E; [|reflexivity].
  exfalso. apply H. apply find_member_names. congruence.
Qed.

(** C5: the declared class has exactly four public instance members:
    [SendMessage(objectName, methodName, parameter?)] returning [void],
    [SetFullscreen(fullScreen)] returning [void], [Quit()] returning a
    promise, and [Module], whose only member is the canvas reference;
    the declaration licenses reading no other property.  (The construct
    signature is not a member of an instance.) *)
Theorem UnityInstance_capabilities :
  names (members UnityInstance) = ["SendMessage"; "SetFullscreen"; "Quit"; "Module"]
  /\ (forall k, find_member k (members UnityInstance) <> None <->
                In k ["SendMessage"; "SetFullscreen"; "Quit"; "Module"])
  /\ (forall k, ~ In k ["SendMessage"; "SetFullscreen"; "Quit"; "Module"] ->
                read_type (members UnityInstance) k = None)
  /\ (map pname (fun_params SendMessage) = ["objectName"; "methodName"; "parameter"]
      /\ map poptional (fun_params SendMessage) = [false; false; true]
      /\ fun_return SendMessage = Some TVoid
      /\ member_type "SendMessage" (members UnityInstance) = Some SendMessage)
  /\ (map pname (fun_params SetFullscreen) = ["fullScreen"]
      /\ fun_return SetFullscreen = Some TVoid
      /\ member_type "SetFullscreen" (members UnityInstance) = Some SetFullscreen)
  /\ (fun_params Quit = []
      /\ fun_return Quit = Some (TPromise TVoid)
      /\ member_type "Quit" (members UnityInstance) = Some Quit)
  /\ (member_type "Module" (members UnityInstance) = Some (TObject Module_members)
      /\ names Module_members = ["canvas"]
      /\ read_type Module_members "canvas" = Some (TUnion [THTMLCanvasElement; TUndefined])).
Proof.
  split; [reflexivity|].
  split; [intros k; apply find_member_names|].
  split; [intros k Hk; now apply read_type_not_member|].
  repeat split; reflexivity.
Qed.

Lemma UnityInstance_capabilities_witness :
  ~ In "Canvas" ["SendMessage"; "SetFullscreen"; "Quit"; "Module"]
  /\ read_type (members UnityInstance) "Canvas" = None.
Proof.
  assert (H : ~ In "Canvas" ["SendMessage"; "SetFullscreen"; "Quit"; "Module"]).
  { cbn. intros H. repeat (destruct H as [H|H]; [discriminate H|]). exact H. }
  split; [exact H|].
  exact (proj1 (proj2 (proj2 UnityInstance_capabilities)) "Canvas" H).
Defined.

Lemma instance_Module_type (inst : jsval) :
  has_type UnityInstance_type inst = true ->
  has_type (TObject Module_members) (get inst "Module") = true.
Proof.
  intros H.
  pose proof (has_type_object_member _ _
    (Member "Module" false false (TObject Module_members) None) H) as Hm.
  unfold member_ok in Hm. cbn [moptional mtype mname andb orb] in Hm.
  apply Hm. cbn. tauto.
Qed.

(** C10: the member [canvas] of [Module] is optional: a read of it has
    type [HTMLCanvasElement | undefined], there is an instance of the
    class on which it reads [undefined] and one on which it reads a
    canvas, and on every instance it reads one or the other. *)
Theorem Module_canvas_optional :
  find_member "canvas" Module_members
    = Some (Member "canvas" false true THTMLCanvasElement None)
  /\ read_type Module_members "canvas" = Some (TUnion [THTMLCanvasElement; TUndefined])
  /\ (has_type UnityInstance_type instance_without_canvas = true
      /\ get (get instance_without_canvas "Module") "canvas" = VUndefined)
  /\ (has_type UnityInstance_type instance_with_canvas = true
      /\ get (get instance_with_canvas "Module") "canvas" = VElement "canvas" 7)
  /\ (forall inst, has_type UnityInstance_type inst = true ->
        get (get inst "Module") "canvas" = VUndefined
        \/ exists id, get (get inst "Module") "canvas" = VElement "canvas" id).
Proof.
  split; [reflexivity|]. split; [reflexivity|].
  split; [split; reflexivity|]. split; [split; reflexivity|].
  intros inst H. apply instance_Module_type in H.
  pose proof (has_type_object_member _ _
    (Member "canvas" false true THTMLCanvasElement None) H) as Hc.
  unfold member_ok in Hc. cbn [moptional mtype mname andb] in Hc.
  assert (Hin : In (Member "canvas" false true THTMLCanvasElement None) Module_members)
    by (now left).
  specialize (Hc Hin). apply orb_true_iff in Hc. destruct Hc as [Hc|Hc].
  - left. destruct (get (get inst "Module") "canvas"); try discriminate. reflexivity.
  - right. now apply has_type_canvas.
Qed.

Lemma Module_canvas_optional_witness :
  has_type UnityInstance_type instance_without_canvas = true
  /\ (get (get instance_without_canvas "Module") "canvas" = VUndefined
      \/ exists id, get (get instance_without_canvas "Module") "canvas" = VElement "canvas" id).
Proof.
  split; [reflexivity|].
  apply (proj2 (proj2 (proj2 (proj2 Module_canvas_optional))) instance_without_canvas).
  reflexivity.
Defined.

(** ** Messages and the fullscreen toggle *)

Lemma has_type_parameter (v : jsval) :
  has_type (TUnion [TString; TNumber; TBoolean]) v = true <->
  exists p, v = val_of_primitive p.
Proof.
  rewrite has_type_union. cbn [existsb]. split.
  - destruct v; cbn; try discriminate; intros _.
    + now exists (PBoolean b).
    + now exists (PNumber x).
    + now exists (PString s).
  - intros [[s|x|b] ->]; reflexivity.
Qed.

Lemma accepts_SendMessage_cons (a b : jsval) (rest : list jsval) :
  accepts SendMessage_params (a :: b :: rest) =
  has_type TString a && (has_type TString b &&
    match rest with
    | [] => true
    | c :: more =>
        (is_undefined c || has_type (TUnion [TString; TNumber; TBoolean]) c)
        && match more with [] => true | _ :: _ => false end
    end).
Proof.
  unfold SendMessage_params. cbn [accepts poptional ptype andb orb].
  destruct rest as [|c more]; [reflexivity|].
  destruct more; reflexivity.
Qed.

Lemma send_args_accepted (o me : string) (p : option primitive) :
  accepts SendMessage_params (Lifecycle.send_args o me p) = true.
Proof.
  unfold Lifecycle.send_args. rewrite accepts_SendMessage_cons.
  destruct p as [q|]; [|reflexivity].
  assert (Hp : has_type (TUnion [TString; TNumber; TBoolean]) (val_of_primitive q) = true)
    by (apply has_type_parameter; now exists q).
  rewrite Hp, orb_true_r. reflexivity.
Qed.

(** What the declared signature accepts: a string object name, a string
    method name and a third argument that is left out, [undefined], a
    string, a number or a boolean; an object is no payload; the result
    is [void], which only [undefined] inhabits. *)
Lemma SendMessage_declared :
  (forall args : list jsval,
     accepts SendMessage_params args = true <->
     exists o m : string,
       args = [VStr o; VStr m]
       \/ args = [VStr o; VStr m; VUndefined]
       \/ exists p : primitive, args = [VStr o; VStr m; val_of_primitive p])
  /\ (forall (o m : string) (props : list (string * jsval)),
        accepts SendMessage_params [VStr o; VStr m; VObj props] = false)
  /\ fun_return SendMessage = Some TVoid
  /\ (forall v : jsval, has_type TVoid v = true -> v = VUndefined).
Proof.
  split; [|split; [reflexivity|split; [reflexivity|]]].
  - intros args. split.
    + destruct args as [|a [|b rest]]; [discriminate| |].
      * unfold SendMessage_params. cbn [accepts poptional ptype andb orb].
        rewrite andb_false_r. discriminate.
      * rewrite accepts_SendMessage_cons. intros H.
        apply andb_true_iff in H. destruct H as [Ha H].
        apply andb_true_iff in H. destruct H as [Hb H].
        apply has_type_string in Ha. destruct Ha as [o ->].
        apply has_type_string in Hb. destruct Hb as [m ->].
        exists o, m. destruct rest as [|c more]; [now left|].
        apply andb_true_iff in H. destruct H as [Hc Hm].
        destruct more; [|discriminate].
        apply orb_true_iff in Hc. destruct Hc as [Hc|Hc].
        -- right; left. destruct c; try discriminate. reflexivity.
        -- right; right. apply has_type_parameter in Hc.
           destruct Hc as [p ->]. now exists p.
    + intros [o [m [-> | [-> | [p ->]]]]]; try reflexivity.
      assert (Hp : has_type (TUnion [TString; TNumber; TBoolean]) (val_of_primitive p) = true)
        by (apply has_type_parameter; now exists p).
      rewrite accepts_SendMessage_cons, Hp, orb_true_r. reflexivity.
  - intros v. destruct v; try discriminate. reflexivity.
Qed.

Lemma nonempty_string_VStr (s : string) : nonempty_string (VStr s) = true <-> s <> "".
Proof.
  cbn. rewrite negb_true_iff. apply String.eqb_neq.
Qed.

(** C1: [sendMessage] goes through only with a non-empty object name
    and a non-empty method name (and only in [Running]); with an empty
    name it is refused at once, nothing is relayed and the manager is
    as before.  The parameter is optional and, when present, a string,
    a number or a boolean; the call that is relayed is one the declared
    [SendMessage] accepts, which takes no object as payload; and the
    call returns no value: the manager returns nothing and the declared
    result is [void]. *)
Theorem SendMessage_contract :
  (forall (m : manager) (o me : string) (p : option primitive),
     snd (sendMessage m o me p) = Ok tt <->
     lifecycle m = Running /\ o <> "" /\ me <> "")
  /\ (forall (m : manager) (o me : string) (p : option primitive),
        lifecycle m = Running -> o = "" \/ me = "" ->
        sendMessage m o me p = (m, Err ValidationError))
  /\ (forall (m : manager) (o me : string) (p : option primitive),
        snd (sendMessage m o me p) = Ok tt ->
        relayed (fst (sendMessage m o me p))
          = relayed m ++ [CallSendMessage (send_args o me p)]
        /\ lifecycle (fst (sendMessage m o me p)) = lifecycle m
        /\ accepts SendMessage_params (send_args o me p) = true)
  /\ (forall args : list jsval,
        accepts SendMessage_params args = true <->
        exists o m : string,
          args = [VStr o; VStr m]
          \/ args = [VStr o; VStr m; VUndefined]
          \/ exists p : primitive, args = [VStr o; VStr m; val_of_primitive p])
  /\ (forall (o m : string) (props : list (string * jsval)),
        accepts SendMessage_params [VStr o; VStr m; VObj props] = false)
  /\ fun_return SendMessage = Some TVoid
  /\ (forall v : jsval, has_type TVoid v = true -> v = VUndefined).
Proof.
  assert (Hrun : forall (m : manager) (o me : string) (p : option primitive),
            lifecycle m = Running ->
            sendMessage m o me p =
            if nonempty_string (VStr o) && nonempty_string (VStr me)
            then (relay (CallSendMessage (send_args o me p)) m, Ok tt)
            else (m, Err ValidationError)).
  { intros m o me p H. unfold sendMessage. now rewrite H. }
  split; [|split; [|split; [|exact SendMessage_declared]]].
  - intros m o me p. split.
    + intros H. destruct (lifecycle m) eqn:E;
        try (unfold sendMessage in H; rewrite E in H; discriminate H).
      rewrite (Hrun m o me p E) in H. split; [reflexivity|].
      destruct (nonempty_string (VStr o) && nonempty_string (VStr me)) eqn:V;
        [|discriminate H].
      apply andb_true_iff in V. destruct V as [Vo Vm].
      split; now apply nonempty_string_VStr.
    + intros [E [Ho Hm]]. rewrite (Hrun m o me p E).
      apply nonempty_string_VStr in Ho. apply nonempty_string_VStr in Hm.
      now rewrite Ho, Hm.
  - intros m o me p E Hempty. rewrite (Hrun m o me p E).
    destruct Hempty as [-> | ->]; cbn; [reflexivity|].
    now rewrite andb_false_r.
  - intros m o me p H.
    destruct (lifecycle m) eqn:E;
      try (unfold sendMessage in H; rewrite E in H; discriminate H).
    rewrite (Hrun m o me p E) in *.
    destruct (nonempty_string (VStr o) && nonempty_string (VStr me));
      [|discriminate H].
    cbn [fst snd relay relayed lifecycle].
    split; [reflexivity|]. split; [exact E|]. apply send_args_accepted.
Qed.

Lemma SendMessage_contract_witness :
  (lifecycle running_manager = Running /\ "Player" <> "" /\ "Jump" <> "")
  /\ snd (sendMessage running_manager "Player" "Jump" (Some (PNumber num_three))) = Ok tt.
Proof.
  assert (H : lifecycle running_manager = Running /\ "Player" <> "" /\ "Jump" <> "")
    by (split; [reflexivity | split; discriminate]).
  split; [exact H|].
  exact (proj2 (proj1 SendMessage_contract running_manager "Player" "Jump"
                  (Some (PNumber num_three))) H).
Defined.

Lemma accepts_SetFullscreen (v : jsval) :
  accepts SetFullscreen_params [v] =
  match v with
  | VNum x => SFeqb x num_zero || SFeqb x num_one
  | _ => false
  end.
Proof.
  unfold SetFullscreen_params. cbn [accepts poptional ptype andb orb].
  rewrite has_type_union, andb_true_r. cbn [existsb].
  rewrite orb_false_r. destruct v; reflexivity.
Qed.

(** [SetFullscreen] does not take a JavaScript boolean. *)
Remark SetFullscreen_rejects_booleans (b : bool) :
  accepts SetFullscreen_params [VBool b] = false.
Proof. reflexivity. Qed.

(** ** The configuration, as declared *)

Lemma assign_readonly (ms : list (member ty)) :
  forallb mreadonly ms = true -> write_once ms.
Proof.
  intros Hro o k v. unfold assign.
  destruct (find_member k ms) as [m|] eqn:E; [|reflexivity].
  apply find_member_In in E. destruct E as [Hin _].
  rewrite forallb_forall in Hro. now rewrite (Hro m Hin).
Qed.

(** [Pick] and the intersection as they come out: the twelve picked
    members in the order of [IUnityArguments], then [loaderUrl]. *)
Lemma IUnityConfig_names :
  names IUnityConfig =
  [ "dataUrl"; "frameworkUrl"; "codeUrl"; "streamingAssetsUrl"; "memoryUrl";
    "symbolsUrl"; "companyName"; "productName"; "productVersion";
    "devicePixelRatio"; "matchWebGLToCanvasSize"; "webglContextAttributes";
    "loaderUrl" ].
Proof. reflexivity. Qed.

(** The diagnostic sink [print] of the arguments interface can be
    assigned to: the configuration types are not write-once in every
    member. *)
Lemma print_slot_is_assignable :
  assign IUnityArguments [("dataUrl", VStr "Build/unity.data")] "print" (VFun 1)
    = Some [("dataUrl", VStr "Build/unity.data"); ("print", VFun 1)]
  /\ ~ (write_once IUnityConfig /\ write_once IUnityArguments).
Proof.
  split; [reflexivity|].
  intros [_ H].
  specialize (H [("dataUrl", VStr "Build/unity.data")] "print" (VFun 1)).
  discriminate H.
Qed.

(** C3 (amended): every member of [IUnityConfig], and every member of
    [IUnityArguments] other than the two diagnostic sinks, is
    [readonly]: no assignment to it type-checks.  The sinks [print] and
    [printError] are declared without [readonly], are no members of
    [IUnityConfig], and stay assignable: clearing one by assigning
    [undefined] type-checks on every arguments object. *)
Theorem configuration_readonly_except_sinks :
  write_once IUnityConfig
  /\ (forall (o : list (string * jsval)) (k : string) (v : jsval),
        k <> "print" -> k <> "printError" -> assign IUnityArguments o k v = None)
  /\ (forall k : string, In k ["print"; "printError"] ->
        find_member k IUnityConfig = None
        /\ option_map mreadonly (find_member k IUnityArguments) = Some false
        /\ forall o : list (string * jsval),
             assign IUnityArguments o k VUndefined = Some (update k VUndefined o)).
Proof.
  split; [apply assign_readonly; reflexivity|]. split.
  - intros o k v Hp He. unfold assign.
    destruct (find_member k IUnityArguments) as [m|] eqn:E; [|reflexivity].
    apply find_member_In in E. destruct E as [Hin Hk].
    unfold IUnityArguments in Hin. cbn [In] in Hin.
    repeat (destruct Hin as [<-|Hin]; [try reflexivity; cbn in Hk; congruence|]).
    destruct Hin.
  - intros k [<-|[<-|[]]]; repeat split; reflexivity.
Qed.

Lemma configuration_readonly_except_sinks_witness :
  "dataUrl" <> "print" /\ "dataUrl" <> "printError"
  /\ assign IUnityArguments [] "dataUrl" (VStr "other.data") = None.
Proof.
  split; [discriminate|]. split; [discriminate|].
  apply (proj1 (proj2 configuration_readonly_except_sinks)); discriminate.
Defined.

(** What the declarations say of the locators: four required members
    of type [string], three optional ones. *)
Lemma locators_declared :
  (forall k : string, In k required_locators ->
     find_member k IUnityConfig = Some (Member k true false TString None))
  /\ (forall k : string, In k optional_locators ->
        find_member k IUnityConfig = Some (Member k true true TString None))
  /\ (forall cfg : jsval, has_type (TObject IUnityConfig) cfg = true ->
        (forall k : string, In k required_locators -> exists s, get cfg k = VStr s)
        /\ (forall k : string, In k optional_locators ->
              get cfg k = VUndefined \/ exists s, get cfg k = VStr s))
  /\ (has_type (TObject IUnityConfig) minimal_config = true
      /\ forall k : string, In k optional_locators -> get minimal_config k = VUndefined).
Proof.
  split; [intros k Hk; cbn in Hk; repeat (destruct Hk as [<-|Hk]; [reflexivity|]); destruct Hk|].
  split; [intros k Hk; cbn in Hk; repeat (destruct Hk as [<-|Hk]; [reflexivity|]); destruct Hk|].
  split.
  - intros cfg H. split; intros k Hk.
    + pose proof (has_type_object_member _ _ (Member k true false TString None) H) as Hm.
      unfold member_ok in Hm. cbn [moptional mtype mname andb orb] in Hm.
      apply has_type_string, Hm.
      cbn in Hk. repeat (destruct Hk as [<-|Hk]; [cbn; tauto|]). destruct Hk.
    + pose proof (has_type_object_member _ _ (Member k true true TString None) H) as Hm.
      unfold member_ok in Hm. cbn [moptional mtype mname andb] in Hm.
      assert (Hin : In (Member k true true TString None) IUnityConfig)
        by (cbn in Hk; repeat (destruct Hk as [<-|Hk]; [cbn; tauto|]); destruct Hk).
      specialize (Hm Hin). apply orb_true_iff in Hm. destruct Hm as [Hm|Hm].
      * left. destruct (get cfg k); try discriminate. reflexivity.
      * right. now apply has_type_string.
  - split; [reflexivity|].
    intros k Hk. cbn in Hk. repeat (destruct Hk as [<-|Hk]; [reflexivity|]). destruct Hk.
Qed.

Lemma required_members_locators (k : string) :
  In k required_members <-> In k required_locators.
Proof.
  change required_members with ["dataUrl"; "frameworkUrl"; "codeUrl"; "loaderUrl"].
  cbn. tauto.
Qed.

Lemma create_checks_locators (cfg : jsval) :
  forallb (fun k => nonempty_string (get cfg k)) required_members = true <->
  (forall k, In k required_locators -> nonempty_string (get cfg k) = true).
Proof.
  rewrite forallb_forall. split; intros H k Hk; apply H.
  - exact (proj2 (required_members_locators k) Hk).
  - exact (proj1 (required_members_locators k) Hk).
Qed.

Lemma not_bound (target : nat) (bound : list nat) :
  ~ In target bound -> existsb (Nat.eqb target) bound = false.
Proof.
  intros H. destruct (existsb (Nat.eqb target) bound) eqn:E; [|reflexivity].
  apply existsb_exists in E. destruct E as [x [Hx Ex]].
  apply Nat.eqb_eq in Ex. subst. contradiction.
Qed.

(** C4: [loaderUrl], [dataUrl], [frameworkUrl] and [codeUrl] are
    required members of type [string], and [create] goes through only
    when each holds a non-empty string: with one of them empty or
    missing it is refused with [InvalidConfigurationError] and the
    manager stays [Idle].  [streamingAssetsUrl], [memoryUrl] and
    [symbolsUrl] are optional members of type [string]: a configuration
    may leave them out, and [create] asks nothing of them. *)
Theorem locators_required_and_optional :
  (forall k : string, In k required_locators ->
     find_member k IUnityConfig = Some (Member k true false TString None))
  /\ (forall k : string, In k optional_locators ->
        find_member k IUnityConfig = Some (Member k true true TString None))
  /\ (forall cfg : jsval, has_type (TObject IUnityConfig) cfg = true ->
        (forall k : string, In k required_locators -> exists s, get cfg k = VStr s)
        /\ (forall k : string, In k optional_locators ->
              get cfg k = VUndefined \/ exists s, get cfg k = VStr s))
  /\ (has_type (TObject IUnityConfig) minimal_config = true
      /\ forall k : string, In k optional_locators -> get minimal_config k = VUndefined)
  /\ (forall (bound : list nat) (cfg : jsval) (target s : nat),
        snd (create bound cfg target) = Ok s ->
        forall k : string, In k required_locators -> nonempty_string (get cfg k) = true)
  /\ (forall (bound : list nat) (cfg : jsval) (target : nat) (k : string),
        In k required_locators -> nonempty_string (get cfg k) = false ->
        create bound cfg target = (initial, Err InvalidConfigurationError))
  /\ (forall (bound : list nat) (cfg : jsval) (target : nat),
        (forall k : string, In k required_locators -> nonempty_string (get cfg k) = true) ->
        ~ In target bound ->
        snd (create bound cfg target) = Ok 0
        /\ lifecycle (fst (create bound cfg target)) = Loading).
Proof.
  destruct locators_declared as [D1 [D2 [D3 D4]]].
  split; [exact D1|]. split; [exact D2|]. split; [exact D3|]. split; [exact D4|].
  split; [|split].
  - intros bound cfg target s H. apply create_checks_locators.
    unfold create in H.
    destruct (forallb (fun k => nonempty_string (get cfg k)) required_members);
      [reflexivity | discriminate H].
  - intros bound cfg target k Hk Hempty. unfold create.
    destruct (forallb (fun k => nonempty_string (get cfg k)) required_members) eqn:V;
      [|reflexivity].
    rewrite create_checks_locators in V. rewrite (V k Hk) in Hempty. discriminate Hempty.
  - intros bound cfg target Hvalid Hfree. unfold create.
    apply create_checks_locators in Hvalid. rewrite Hvalid.
    rewrite (not_bound _ _ Hfree). split; reflexivity.
Qed.

Lemma locators_required_and_optional_witness :
  (In "dataUrl" required_locators
   /\ nonempty_string (get empty_locators_config "dataUrl") = false
   /\ create [] empty_locators_config 0 = (initial, Err InvalidConfigurationError))
  /\ (has_type (TObject IUnityConfig) minimal_config = true
      /\ snd (create [] minimal_config 0) = Ok 0).
Proof.
  assert (Hin : In "dataUrl" required_locators) by (cbn; tauto).
  split.
  - split; [exact Hin|]. split; [reflexivity|].
    exact (proj1 (proj2 (proj2 (proj2 (proj2 (proj2 locators_required_and_optional)))))
             [] empty_locators_config 0 "dataUrl" Hin eq_refl).
  - split; [reflexivity|].
    apply (proj2 (proj2 (proj2 (proj2 (proj2 (proj2 locators_required_and_optional)))))
             [] minimal_config 0).
    + intros k Hk. cbn in Hk.
      repeat (destruct Hk as [<-|Hk]; [reflexivity|]). destruct Hk.
    + intros [].
Defined.





(** ** The lifecycle *)

(** C2: the argument [SetFullscreen] accepts is a two-valued toggle, the
    number 0 or the number 1, which stand for the booleans [false] and
    [true]; the manager relays such a toggle, and [setFullscreen] leaves
    the lifecycle state as it was, in every state. *)
Theorem setFullscreen_toggle_keeps_state :
  (forall v : jsval,
     accepts SetFullscreen_params [v] = true <-> exists b : bool, bool_of_toggle v = Some b)
  /\ (forall b : bool,
        accepts SetFullscreen_params [toggle_of_bool b] = true
        /\ bool_of_toggle (toggle_of_bool b) = Some b)
  /\ (forall (m : manager) (enabled : bool),
        lifecycle (fst (setFullscreen m enabled)) = lifecycle m).
Proof.
  split; [|split].
  - intros v. rewrite accepts_SetFullscreen. unfold bool_of_toggle.
    destruct v as [| |b0|x|s|tag id|n|props];
      try (split; [discriminate | intros [b Hb]; discriminate Hb]).
    destruct (SFeqb x num_zero); [split; [now exists false | reflexivity]|].
    destruct (SFeqb x num_one); [split; [now exists true | reflexivity]|].
    split; [discriminate | intros [b Hb]; discriminate Hb].
  - intros []; split; reflexivity.
  - intros m enabled. unfold setFullscreen.
    destruct (lifecycle m) eqn:E; cbn; congruence.
Qed.

Lemma setFullscreen_toggle_keeps_state_witness :
  accepts SetFullscreen_params [VNum num_one] = true
  /\ (exists b : bool, bool_of_toggle (VNum num_one) = Some b)
  /\ lifecycle (fst (setFullscreen running_manager true)) = Running.
Proof.
  split; [reflexivity|]. split.
  - apply (proj1 (proj1 setFullscreen_toggle_keeps_state (VNum num_one))). reflexivity.
  - exact (proj2 (proj2 setFullscreen_toggle_keeps_state) running_manager true).
Defined.

(** C8: in every state other than [Running], that is in [Idle],
    [Loading], [Quitting], [Terminated] and [Failed], [sendMessage]
    returns [NotRunningError] from the call itself and hands the manager
    back as it was. *)
Theorem sendMessage_outside_Running (m : manager) (objectName methodName : string)
        (parameter : option primitive) :
  lifecycle m <> Running ->
  In (lifecycle m) [Idle; Loading; Quitting; Terminated; Failed]
  /\ sendMessage m objectName methodName parameter = (m, Err NotRunningError).
Proof.
  intros H. unfold sendMessage.
  destruct (lifecycle m); try congruence; cbn; tauto.
Qed.

Lemma sendMessage_outside_Running_witness :
  lifecycle idle_manager <> Running
  /\ sendMessage idle_manager "Player" "Jump" (Some (PNumber num_one))
     = (idle_manager, Err NotRunningError).
Proof.
  assert (H : lifecycle idle_manager <> Running) by discriminate.
  split; [exact H|].
  exact (proj2 (sendMessage_outside_Running idle_manager "Player" "Jump"
                  (Some (PNumber num_one)) H)).
Defined.

(** What the manager relays in [Running] is a call the declared
    signatures accept. *)
Lemma relayed_calls_well_typed (o me : string) (p : option primitive) (b : bool) :
  accepts SendMessage_params (send_args o me p) = true
  /\ accepts SetFullscreen_params [toggle_of_bool b] = true.
Proof.
  split.
  - apply send_args_accepted.
  - destruct b; reflexivity.
Qed.

(** *** Teardown *)

Lemma settle_pending (l : list completion) (s : nat) (c : completion) :
  nth_error l s = Some Pending -> nth_error (settle s c l) s = Some c.
Proof.
  revert s. induction l as [|x l IH]; intros [|s] H; cbn in *; try discriminate.
  - injection H as ->. reflexivity.
  - destruct x; cbn; now apply IH.
Qed.

Lemma quit_accepted (m : manager) :
  lifecycle m = Running \/ lifecycle m = Loading ->
  snd (quit m) = Ok (length (signals m))
  /\ teardown_inv (detachments m) (length (signals m)) false (fst (quit m)).
Proof.
  assert (Hn : nth_error (signals m ++ [Pending]) (length (signals m)) = Some Pending).
  { rewrite nth_error_app2 by lia. now rewrite Nat.sub_diag. }
  intros [H|H]; unfold quit; rewrite H; cbn;
    (split; [reflexivity|]); unfold teardown_inv, await; cbn; auto.
Qed.

Lemma quit_again (d s : nat) (released : bool) (m : manager) :
  teardown_inv d s released m -> quit m = (m, Ok s).
Proof.
  intros [Hs H]. unfold quit.
  destruct released.
  - destruct H as [-> _]. now rewrite Hs.
  - destruct H as [-> _]. now rewrite Hs.
Qed.

Lemma step_teardown (d s : nat) (released : bool) (m : manager) (e : event) :
  teardown_inv d s released m ->
  teardown_inv d s (released || is_release e) (step m e).
Proof.
  intros Hinv. pose proof Hinv as [Hs H]. destruct released.
  - (* already terminated: nothing moves *)
    destruct H as [Hl H]. cbn [orb].
    assert (Hstep : step m e = m).
    { destruct e; cbn [step]; unfold sendMessage, setFullscreen, release_confirmed;
        rewrite ?Hl; try reflexivity.
      now rewrite (quit_again _ _ _ _ Hinv). }
    now rewrite Hstep.
  - destruct H as [Hl [Hd Ha]]. cbn [orb].
    destruct e as [o me p|b| |failed]; cbn [step is_release].
    + unfold sendMessage. now rewrite Hl.
    + unfold setFullscreen. now rewrite Hl.
    + now rewrite (quit_again _ _ _ _ Hinv).
    + unfold release_confirmed. rewrite Hl, Hs.
      unfold teardown_inv, await in *. cbn.
      split; [reflexivity|]. split; [reflexivity|]. split; [congruence|].
      split; [reflexivity|].
      rewrite (settle_pending _ _ _ Ha). destruct failed; auto.
Qed.

Lemma run_teardown (es : list event) :
  forall (d s : nat) (released : bool) (m : manager),
    teardown_inv d s released m ->
    teardown_inv d s (released || existsb is_release es) (run m es).
Proof.
  induction es as [|e es IH]; intros d s released m H; cbn [run fold_left existsb].
  - now rewrite orb_false_r.
  - rewrite orb_assoc. apply IH. now apply step_teardown.
Qed.

(** C7: once [quit] has been accepted in [Running] or [Loading], a
    second [quit], whatever happened in between (the release being
    confirmed or not, other commands, further quits), returns the signal
    of the first call and hands the manager back as it was; that one
    signal is pending until the release is confirmed and settled
    afterwards; and however the run continues after the second call,
    the surface has been detached once if the release was confirmed and
    not at all before that. *)
Theorem quit_idempotent (m : manager) (between after : list event) :
  lifecycle m = Running \/ lifecycle m = Loading ->
  let first := quit m in
  let m1 := run (fst first) between in
  let second := quit m1 in
  let m2 := run (fst second) after in
  snd first = Ok (length (signals m))
  /\ snd second = snd first
  /\ fst second = m1
  /\ (if existsb is_release between
      then lifecycle m1 = Terminated /\ surface m1 = None
           /\ (await m1 (length (signals m)) = Some Resolved
               \/ await m1 (length (signals m)) = Some (Rejected TeardownError))
      else lifecycle m1 = Quitting /\ await m1 (length (signals m)) = Some Pending)
  /\ detachments m2
     = detachments m + (if existsb is_release (between ++ after) then 1 else 0).
Proof.
  intros Hm. cbn zeta.
  destruct (quit_accepted m Hm) as [Hfirst Hinv].
  pose proof (run_teardown between _ _ _ _ Hinv) as Hinv1. cbn [orb] in Hinv1.
  pose proof (quit_again _ _ _ _ Hinv1) as Hsecond.
  rewrite Hsecond. cbn [fst snd].
  split; [exact Hfirst|]. split; [now rewrite Hfirst|]. split; [reflexivity|].
  split.
  - destruct Hinv1 as [_ H1]. destruct (existsb is_release between); tauto.
  - pose proof (run_teardown after _ _ _ _ Hinv1) as [_ H2].
    rewrite existsb_app.
    destruct (existsb is_release between || existsb is_release after); lia.
Qed.

Lemma quit_idempotent_witness :
  (lifecycle running_manager = Running \/ lifecycle running_manager = Loading)
  /\ snd (quit (run (fst (quit running_manager)) [EvReleased false]))
     = snd (quit running_manager)
  /\ detachments
       (run (fst (quit (run (fst (quit running_manager)) [EvReleased false]))) [EvQuit])
     = 1.
Proof.
  assert (H : lifecycle running_manager = Running \/ lifecycle running_manager = Loading)
    by (left; reflexivity).
  pose proof (quit_idempotent running_manager [EvReleased false] [EvQuit] H) as T.
  cbn zeta in T.
  split; [exact H|].
  split; [exact (proj1 (proj2 T)) | exact (proj2 (proj2 (proj2 (proj2 T))))].
Defined.

(** ** Further properties of the declarations *)

Lemma is_undefined_eq (v : jsval) : is_undefined v = true -> v = VUndefined.
Proof. destruct v; try discriminate. reflexivity. Qed.

Lemma has_type_object_intro (ms : list (member ty)) (v : jsval) :
  is_object v = true ->
  (forall m, In m ms -> member_ok v m = true) ->
  has_type (TObject ms) v = true.
Proof.
  intros Ho H. rewrite has_type_object, Ho. cbn [andb].
  apply forallb_forall. exact H.
Qed.

Lemma has_type_object_is_object (ms : list (member ty)) (v : jsval) :
  has_type (TObject ms) v = true -> is_object v = true.
Proof.
  rewrite has_type_object. intros H. now apply andb_true_iff in H.
Qed.

Lemma In_Pick (ms : list (member ty)) (keys : list string) (m : member ty) :
  In m (Pick ms keys) <-> In m ms /\ In (mname m) keys.
Proof.
  unfold Pick. rewrite filter_In, existsb_exists. split.
  - intros [Hin [k [Hk E]]]. apply String.eqb_eq in E. subst. now split.
  - intros [Hin Hk]. split; [exact Hin|].
    exists (mname m). split; [exact Hk | apply String.eqb_refl].
Qed.

(** A read of an optional member gives [undefined] or a value of the
    member's type; a read of a required member gives a value of the
    member's type. *)
Lemma read_member (ms : list (member ty)) (v : jsval) (m : member ty) :
  has_type (TObject ms) v = true -> In m ms ->
  (moptional m = true /\ get v (mname m) = VUndefined)
  \/ has_type (mtype m) (get v (mname m)) = true.
Proof.
  intros H Hin. pose proof (has_type_object_member _ _ _ H Hin) as Hm.
  unfold member_ok in Hm. apply orb_true_iff in Hm. destruct Hm as [Hm|Hm].
  - apply andb_true_iff in Hm. destruct Hm as [Ho Hu].
    left. split; [exact Ho | now apply is_undefined_eq].
  - now right.
Qed.

Lemma has_type_boolean (v : jsval) :
  has_type TBoolean v = true -> exists b, v = VBool b.
Proof. destruct v; try discriminate. intros _. now exists b. Qed.

Lemma has_type_number (v : jsval) :
  has_type TNumber v = true -> exists x, v = VNum x.
Proof. destruct v; try discriminate. intros _. now exists x. Qed.

(** *** [IUnityConfig] against [IUnityArguments] *)

Lemma IUnityConfig_member_cases (m : member ty) :
  In m IUnityConfig ->
  In m IUnityArguments \/ m = Member "loaderUrl" true false TString None.
Proof.
  unfold IUnityConfig, intersect. rewrite in_app_iff, In_Pick.
  intros [ [Hin _] | [<-|[]] ]; [now left | now right].
Qed.

Lemma IUnityConfig_from_arguments (m : member ty) :
  In m IUnityArguments -> mname m <> "print" -> mname m <> "printError" ->
  In m IUnityConfig.
Proof.
  unfold IUnityConfig, intersect. rewrite in_app_iff, In_Pick.
  intros Hin Hp He. left. split; [exact Hin|].
  cbn in Hin. repeat (destruct Hin as [<-|Hin]; [cbn in *; tauto|]). destruct Hin.
Qed.

(** X1: [IUnityConfig] is [IUnityArguments] without the two diagnostic
    sinks and with [loaderUrl]: every other member is taken over with
    its modifiers, its type and its doc tag as they are. *)
Theorem IUnityConfig_members (m : member ty) :
  In m IUnityConfig <->
  (In m IUnityArguments /\ mname m <> "print" /\ mname m <> "printError")
  \/ m = Member "loaderUrl" true false TString None.
Proof.
  split.
  - intros H. destruct (IUnityConfig_member_cases m H) as [Hin| ->]; [left|now right].
    split; [exact Hin|].
    assert (Hn : In (mname m) (names IUnityConfig)) by (apply in_map, H).
    rewrite IUnityConfig_names in Hn. cbn in Hn.
    split; intros E; rewrite E in Hn;
      repeat (destruct Hn as [Hn|Hn]; [discriminate Hn|]); exact Hn.
  - intros [ [Hin [Hp He]] | -> ].
    + now apply IUnityConfig_from_arguments.
    + unfold IUnityConfig, intersect. apply in_or_app. right. now left.
Qed.

(** X2: an arguments object that also holds a string [loaderUrl] is a
    configuration. *)
Theorem arguments_with_loader_is_config (v : jsval) (loader : string) :
  has_type (TObject IUnityArguments) v = true ->
  get v "loaderUrl" = VStr loader ->
  has_type (TObject IUnityConfig) v = true.
Proof.
  intros H Hl.
  apply has_type_object_intro; [now apply has_type_object_is_object in H|].
  intros m Hm. apply IUnityConfig_member_cases in Hm. destruct Hm as [Hin| ->].
  - now apply (has_type_object_member _ _ _ H).
  - unfold member_ok. cbn [moptional mtype mname andb orb]. now rewrite Hl.
Qed.

Lemma arguments_with_loader_is_config_witness :
  has_type (TObject IUnityArguments) minimal_config = true
  /\ get minimal_config "loaderUrl" = VStr "Build/unity.loader.js"
  /\ has_type (TObject IUnityConfig) minimal_config = true.
Proof.
  split; [reflexivity|]. split; [reflexivity|].
  apply (arguments_with_loader_is_config minimal_config "Build/unity.loader.js");
    reflexivity.
Defined.

Lemma sink_member (m : member ty) (k : string) :
  In m IUnityArguments -> In k ["print"; "printError"] -> mname m = k ->
  m = Member k false true (TFun [Param "message" false TString] TVoid) None.
Proof.
  intros Hin Hk E. cbn in Hk. destruct Hk as [<-|[<-|[]]];
    cbn in Hin; repeat (destruct Hin as [<-|Hin]; [first [reflexivity | discriminate E]|]);
    destruct Hin.
Qed.

Lemma sink_member_ok (v : jsval) (k : string) :
  member_ok v (Member k false true (TFun [Param "message" false TString] TVoid) None)
  = sink_value (get v k).
Proof.
  unfold member_ok. cbn [moptional mtype mname andb].
  destruct (get v k); reflexivity.
Qed.

(** X3: a configuration that holds neither [print] nor [printError] can
    be handed on as the arguments of the instance; and a configuration
    that is a valid arguments object holds in each sink nothing or a
    function that requires at most one parameter. *)
Theorem config_is_arguments (v : jsval) :
  has_type (TObject IUnityConfig) v = true ->
  (get v "print" = VUndefined -> get v "printError" = VUndefined ->
   has_type (TObject IUnityArguments) v = true)
  /\ (has_type (TObject IUnityArguments) v = true ->
      sink_value (get v "print") = true /\ sink_value (get v "printError") = true).
Proof.
  intros H. split.
  - intros Hp He.
    apply has_type_object_intro; [now apply has_type_object_is_object in H|].
    intros m Hm.
    destruct (String.eqb_spec (mname m) "print") as [Ep|Ep];
      [|destruct (String.eqb_spec (mname m) "printError") as [Ee|Ee]].
    + rewrite (sink_member m "print" Hm (or_introl eq_refl) Ep).
      rewrite sink_member_ok, Hp. reflexivity.
    + rewrite (sink_member m "printError" Hm (or_intror (or_introl eq_refl)) Ee).
      rewrite sink_member_ok, He. reflexivity.
    + now apply (has_type_object_member _ _ _ H), IUnityConfig_from_arguments.
  - intros Ha. split.
    + rewrite <- sink_member_ok.
      apply (has_type_object_member _ _ _ Ha). cbn; tauto.
    + rewrite <- sink_member_ok.
      apply (has_type_object_member _ _ _ Ha). cbn; tauto.
Qed.

Lemma config_is_arguments_witness :
  has_type (TObject IUnityConfig) minimal_config = true
  /\ has_type (TObject IUnityArguments) minimal_config = true.
Proof.
  split; [reflexivity|].
  apply (proj1 (config_is_arguments minimal_config eq_refl)); reflexivity.
Defined.

(** X4: the four locators are all a configuration needs: an object that
    holds a string in each of them and none of the other declared
    members is a configuration. *)
Theorem four_locators_suffice (props : list (string * jsval)) :
  (forall k, In k required_locators -> exists s, lookup k props = Some (VStr s)) ->
  (forall k, In k (names IUnityConfig) -> ~ In k required_locators -> lookup k props = None) ->
  has_type (TObject IUnityConfig) (VObj props) = true.
Proof.
  intros Hreq Hnone. apply has_type_object_intro; [reflexivity|].
  intros m Hm. unfold member_ok, get.
  assert (Hn : In (mname m) (names IUnityConfig)) by (apply in_map, Hm).
  destruct (in_dec string_dec (mname m) required_locators) as [Hr|Hr].
  - destruct (Hreq _ Hr) as [s ->].
    destruct (IUnityConfig_member_cases m Hm) as [Hin| ->]; [|reflexivity].
    cbn in Hin. repeat (destruct Hin as [<-|Hin]; [first [reflexivity | cbn in Hr; exfalso;
      repeat (destruct Hr as [Hr|Hr]; [discriminate Hr|]); exact Hr]|]).
    destruct Hin.
  - rewrite (Hnone _ Hn Hr).
    destruct (IUnityConfig_member_cases m Hm) as [Hin| ->]; [|exfalso; apply Hr; cbn; tauto].
    cbn in Hin. repeat (destruct Hin as [<-|Hin]; [first [reflexivity | exfalso; apply Hr; cbn; tauto]|]).
    destruct Hin.
Qed.

Lemma four_locators_suffice_witness :
  has_type (TObject IUnityConfig)
    (VObj [ ("codeUrl", VStr "a.wasm"); ("loaderUrl", VStr "a.loader.js");
            ("frameworkUrl", VStr "a.framework.js"); ("dataUrl", VStr "a.data");
            ("id", VNum num_three) ]) = true.
Proof.
  apply four_locators_suffice.
  - intros k Hk. cbn in Hk.
    repeat (destruct Hk as [<-|Hk]; [eexists; reflexivity|]). destruct Hk.
  - intros k Hk Hr. rewrite IUnityConfig_names in Hk. cbn in Hk.
    repeat (destruct Hk as [<-|Hk]; [first [reflexivity | exfalso; apply Hr; cbn; tauto]|]).
    destruct Hk.
Defined.

(** X5: what a configuration holds besides the locators: each metadata
    member is left out or a string, [devicePixelRatio] is left out or a
    number, [matchWebGLToCanvasSize] is left out or a boolean, and
    [webglContextAttributes] is left out or an attribute set. *)
Theorem config_other_members (cfg : jsval) :
  has_type (TObject IUnityConfig) cfg = true ->
  (forall k, In k metadata_members ->
     get cfg k = VUndefined \/ exists s, get cfg k = VStr s)
  /\ (get cfg "devicePixelRatio" = VUndefined
      \/ exists x, get cfg "devicePixelRatio" = VNum x)
  /\ (get cfg "matchWebGLToCanvasSize" = VUndefined
      \/ exists b, get cfg "matchWebGLToCanvasSize" = VBool b)
  /\ (get cfg "webglContextAttributes" = VUndefined
      \/ has_type (TObject IWebGLContextAttributes) (get cfg "webglContextAttributes") = true).
Proof.
  intros H.
  assert (R : forall k t, In (Member k true true t None) IUnityConfig ->
            get cfg k = VUndefined \/ has_type t (get cfg k) = true).
  { intros k t Hin. destruct (read_member _ _ _ H Hin) as [[_ Hu]|Ht]; [now left|now right]. }
  split; [|split; [|split]].
  - intros k Hk.
    destruct (R k TString) as [Hu|Ht]; [|now left|right; now apply has_type_string].
    cbn in Hk. repeat (destruct Hk as [<-|Hk]; [cbn; tauto|]). destruct Hk.
  - destruct (R "devicePixelRatio" TNumber) as [Hu|Ht];
      [cbn; tauto|now left|right; now apply has_type_number].
  - destruct (R "matchWebGLToCanvasSize" TBoolean) as [Hu|Ht];
      [cbn; tauto|now left|right; now apply has_type_boolean].
  - apply R. cbn; tauto.
Qed.

Lemma config_other_members_witness :
  has_type (TObject IUnityConfig) minimal_config = true
  /\ (get minimal_config "devicePixelRatio" = VUndefined
      \/ exists x, get minimal_config "devicePixelRatio" = VNum x).
Proof.
  split; [reflexivity|].
  exact (proj1 (proj2 (config_other_members minimal_config eq_refl))).
Defined.

(** *** The context attributes *)

(** X6: in an attribute set, [powerPreference] is left out or one of the
    three strings of the declaration; and each of the three is
    accepted. *)
Theorem powerPreference_values :
  (forall attrs : jsval,
     has_type (TObject IWebGLContextAttributes) attrs = true ->
     In (get attrs "powerPreference")
        [VUndefined; VStr "default"; VStr "high-performance"; VStr "low-power"])
  /\ (forall (props : list (string * jsval)) (v : jsval),
        In v [VUndefined; VStr "default"; VStr "high-performance"; VStr "low-power"] ->
        has_type (TObject IWebGLContextAttributes) (VObj props) = true ->
        has_type (TObject IWebGLContextAttributes)
                 (VObj (("powerPreference", v) :: props)) = true).
Proof.
  split.
  - intros attrs H.
    set (m := Member "powerPreference" true true
                (TUnion [TStrLit "default"; TStrLit "high-performance"; TStrLit "low-power"])
                (Some "default")).
    assert (Hin : In m IWebGLContextAttributes) by (cbn; tauto).
    destruct (read_member _ _ _ H Hin) as [[_ Hu]|Ht]; cbn [mname mtype m] in *.
    + rewrite Hu. now left.
    + rewrite has_type_union in Ht. cbn [existsb] in Ht.
      destruct (get attrs "powerPreference") as [| |b|x|s|tag id|n|ps];
        cbn [has_type orb] in Ht; try discriminate Ht.
      repeat (apply orb_true_iff in Ht; destruct Ht as [Ht|Ht];
              [apply String.eqb_eq in Ht; subst s; cbn; tauto|]).
      discriminate Ht.
  - intros props v Hv H.
    apply has_type_object_intro; [reflexivity|].
    intros m Hm.
    pose proof (has_type_object_member _ _ _ H Hm) as Hok.
    cbn in Hm.
    repeat (destruct Hm as [<-|Hm]; [first [exact Hok |
      cbn in Hv; repeat (destruct Hv as [<-|Hv]; [reflexivity|]); destruct Hv]|]).
    destruct Hm.
Qed.

Lemma powerPreference_values_witness :
  has_type (TObject IWebGLContextAttributes)
           (VObj [("powerPreference", VStr "low-power"); ("alpha", VBool false)]) = true.
Proof.
  apply (proj2 powerPreference_values); [cbn; tauto | reflexivity].
Defined.

(** X7: in an attribute set, every attribute other than [powerPreference]
    is left out or a boolean. *)
Theorem context_flags_boolean (attrs : jsval) (k : string) :
  has_type (TObject IWebGLContextAttributes) attrs = true ->
  In k (names IWebGLContextAttributes) -> k <> "powerPreference" ->
  get attrs k = VUndefined \/ exists b, get attrs k = VBool b.
Proof.
  intros H Hk Hp.
  assert (Hm : exists d, In (Member k true true TBoolean d) IWebGLContextAttributes).
  { cbn in Hk. repeat (destruct Hk as [<-|Hk];
      [first [congruence | eexists; cbn; tauto]|]). destruct Hk. }
  destruct Hm as [d Hin].
  destruct (read_member _ _ _ H Hin) as [[_ Hu]|Ht]; [now left|].
  right. now apply has_type_boolean.
Qed.

Lemma context_flags_boolean_witness :
  get (VObj [("antialias", VBool false)]) "antialias" = VUndefined
  \/ exists b, get (VObj [("antialias", VBool false)]) "antialias" = VBool b.
Proof.
  apply (context_flags_boolean (VObj [("antialias", VBool false)]) "antialias").
  - reflexivity.
  - cbn; tauto.
  - discriminate.
Defined.

(** *** The diagnostic sinks *)

(** X8: each sink is a function of exactly one string argument that
    returns nothing. *)
Theorem sink_signature (k : string) :
  In k ["print"; "printError"] ->
  exists t : ty,
    member_type k IUnityArguments = Some t
    /\ (forall args : list jsval,
          accepts (fun_params t) args = true <-> exists s : string, args = [VStr s])
    /\ fun_return t = Some TVoid.
Proof.
  intros Hk. exists (TFun [Param "message" false TString] TVoid).
  split; [destruct Hk as [<-|[<-|[]]]; reflexivity|].
  split; [|reflexivity].
  intros args. cbn [fun_params]. split.
  - destruct args as [|a [|b rest]]; cbn [accepts poptional ptype andb orb].
    + discriminate.
    + rewrite andb_true_r. intros Ha. apply has_type_string in Ha.
      destruct Ha as [s ->]. now exists s.
    + rewrite andb_false_r. discriminate.
  - intros [s ->]. reflexivity.
Qed.

Lemma sink_signature_witness :
  exists t : ty,
    member_type "printError" IUnityArguments = Some t
    /\ (forall args : list jsval,
          accepts (fun_params t) args = true <-> exists s : string, args = [VStr s])
    /\ fun_return t = Some TVoid.
Proof.
  apply (sink_signature "printError"). cbn; tauto.
Defined.

(** X9: on an arguments object, clearing a sink by assigning
    [undefined] type-checks; an assignment to a sink that type-checks
    assigns [undefined] or a function that requires at most one
    parameter, after which the slot reads the assigned value, every
    other property reads as before, and the object is still an
    arguments object. *)
Theorem sink_assignment (o : list (string * jsval)) (k : string) :
  In k ["print"; "printError"] ->
  has_type (TObject IUnityArguments) (VObj o) = true ->
  assign IUnityArguments o k VUndefined = Some (update k VUndefined o)
  /\ (forall (v : jsval) (o' : list (string * jsval)),
        assign IUnityArguments o k v = Some o' ->
        sink_value v = true
        /\ get (VObj o') k = v
        /\ (forall k', k' <> k -> get (VObj o') k' = get (VObj o) k')
        /\ has_type (TObject IUnityArguments) (VObj o') = true).
Proof.
  intros Hk H.
  assert (Ha : forall v, assign IUnityArguments o k v
               = if sink_value v then Some (update k v o) else None).
  { intros v. destruct Hk as [<-|[<-|[]]]; destruct v; reflexivity. }
  split; [now rewrite Ha|].
  intros v o' Hv. rewrite Ha in Hv.
  destruct (sink_value v) eqn:Sv; [|discriminate Hv].
  injection Hv as <-. split; [reflexivity|]. split; [|split].
  - cbn [get]. now rewrite lookup_update_same.
  - intros k' Hne. cbn [get]. now rewrite lookup_update_other.
  - apply has_type_object_intro; [reflexivity|].
    intros m Hm.
    destruct (String.eqb_spec (mname m) k) as [E|E].
    + rewrite (sink_member m k Hm Hk E), sink_member_ok.
      cbn [get]. now rewrite lookup_update_same.
    + unfold member_ok. cbn [get]. rewrite lookup_update_other by exact E.
      exact (has_type_object_member _ _ _ H Hm).
Qed.

Lemma sink_assignment_witness :
  sink_value (VFun 1) = true
  /\ get (VObj [("dataUrl", VStr "a.data"); ("frameworkUrl", VStr "a.js");
                ("codeUrl", VStr "a.wasm"); ("print", VFun 1)]) "print" = VFun 1.
Proof.
  destruct (proj2 (sink_assignment
              [("dataUrl", VStr "a.data"); ("frameworkUrl", VStr "a.js");
               ("codeUrl", VStr "a.wasm")]
              "print" (or_introl eq_refl) eq_refl)
              (VFun 1)
              [("dataUrl", VStr "a.data"); ("frameworkUrl", VStr "a.js");
               ("codeUrl", VStr "a.wasm"); ("print", VFun 1)]
              eq_refl)
    as [Hs [Hg _]].
  split; [exact Hs | exact Hg].
Defined.

(** *** The methods of the instance *)

(** X10: [SetFullscreen] takes exactly one argument, the number 0 or the
    number 1; [Quit] and the constructor take none. *)
Theorem instance_arities :
  (forall args : list jsval,
     accepts SetFullscreen_params args = true <->
     exists x : number, args = [VNum x] /\ (SFeqb x num_zero || SFeqb x num_one) = true)
  /\ (forall args : list jsval, accepts (fun_params Quit) args = true <-> args = [])
  /\ (forall args : list jsval, accepts (ctor UnityInstance) args = true <-> args = []).
Proof.
  split; [|split].
  - intros args. split.
    + destruct args as [|a [|b rest]].
      * discriminate.
      * rewrite accepts_SetFullscreen.
        destruct a as [| |b|x|s|tag id|n|ps]; try discriminate.
        intros Hx. now exists x.
      * unfold SetFullscreen_params. cbn [accepts]. rewrite andb_false_r. discriminate.
    + intros [x [-> Hx]]. now rewrite accepts_SetFullscreen.
  - intros args. destruct args; cbn; split; congruence.
  - intros args. destruct args; cbn; split; congruence.
Qed.

(** *** The canvas of an instance *)

Lemma instance_canvas_read (inst : jsval) :
  has_type UnityInstance_type inst = true ->
  get (get inst "Module") "canvas" = VUndefined
  \/ has_type THTMLCanvasElement (get (get inst "Module") "canvas") = true.
Proof.
  intros H. apply instance_Module_type in H.
  assert (Hin : In (Member "canvas" false true THTMLCanvasElement None) Module_members)
    by (now left).
  destruct (read_member _ _ _ H Hin) as [[_ Hu]|Ht]; [now left | now right].
Qed.

(** X11: the canvas an instance holds, when it holds one, is a drawable
    surface reference of the handle shape: it is assignable to
    [CanvasElement] and is never a string locator. *)
Theorem instance_canvas_is_CanvasElement (inst : jsval) :
  has_type UnityInstance_type inst = true ->
  get (get inst "Module") "canvas" <> VUndefined ->
  has_type CanvasElement (get (get inst "Module") "canvas") = true
  /\ forall s : string, get (get inst "Module") "canvas" <> VStr s.
Proof.
  intros H Hdef. destruct (instance_canvas_read inst H) as [Hu|Ht]; [contradiction|].
  split.
  - unfold CanvasElement. rewrite has_type_union. cbn [existsb]. now rewrite Ht.
  - intros s E. rewrite E in Ht. discriminate Ht.
Qed.

Lemma instance_canvas_is_CanvasElement_witness :
  has_type CanvasElement (get (get instance_with_canvas "Module") "canvas") = true
  /\ forall s : string, get (get instance_with_canvas "Module") "canvas" <> VStr s.
Proof.
  apply (instance_canvas_is_CanvasElement instance_with_canvas).
  - reflexivity.
  - discriminate.
Defined.
